(** * goquery: statement cache, table data sets, the DuckDB dialect and the
      fluent insert builder

    A shallow embedding of [dataset.go], [dialect_duckdb.go] and
    [fluent_insert.go] of the goquery package, and the properties of these
    files that the specification of the package states.

    Conventions of the embedding.
    - A Go [string] is a [string]; Go's [int] is a 64-bit two's-complement
      integer, carried as a [Z] with the wrap-around of its arithmetic
      written out ([int_wrap]).
    - A Go map is a reference that may be [nil]: [option (gmap string string)],
      where [None] is the nil map.  Reading a nil map finds nothing, writing
      one panics.
    - A method with a receiver is a computation in the monad [M St], whose
      state [St] is what the receiver refers to; a computation either returns
      or panics, and in both cases hands back the state it reached. *)

From Stdlib Require Import Ascii.
From stdpp Require Import base option strings pretty list gmap fin_maps.

Local Open Scope string_scope.
Local Open Scope Z_scope.

(** ** Errors, panics and the state monad *)

(** Go's [error] values.  [errors_New] is [errors.New]; [runtime_error] stands
    for the run-time panics of the language (nil map write, nil dereference). *)
Inductive error : Type :=
  | errors_New (text : string)
  | runtime_error (text : string).

Inductive result (A : Type) : Type :=
  | Ret (a : A)
  | Panic (e : error).
Arguments Ret {A} a.
Arguments Panic {A} e.

Definition M (St A : Type) : Type := St → result A * St.

Definition ret {St A} (a : A) : M St A := λ σ, (Ret a, σ).

Definition bind {St A B} (m : M St A) (f : A → M St B) : M St B :=
  λ σ, match m σ with
       | (Ret a, σ') => f a σ'
       | (Panic e, σ') => (Panic e, σ')
       end.

Definition panic {St A} (e : error) : M St A := λ σ, (Panic e, σ).
Definition getS {St} : M St St := λ σ, (Ret σ, σ).
Definition putS {St} (σ' : St) : M St unit := λ _, (Ret tt, σ').

(** Run a computation on a part of the state ([rd] reads the part, [wr]
    writes it back). *)
Definition zoom {St Part A} (rd : St → Part) (wr : Part → St → St)
    (m : M Part A) : M St A :=
  λ σ, let '(r, p) := m (rd σ) in (r, wr p σ).

Declare Scope go_scope.
Delimit Scope go_scope with go.
Notation "x <- m ;; k" := (bind m (λ x, k))
  (at level 100, m at next level, right associativity) : go_scope.
Notation "m ;;; k" := (bind m (λ _, k))
  (at level 100, right associativity) : go_scope.
Local Open Scope go_scope.

(** ** Go maps from strings to strings *)

Module GoMap.
Abbreviation t := (option (gmap string string)).

(** [make(map[string]string)] *)
Definition make : t := Some ∅.

(** [val, ok := m[key]]: [Some val] when [ok]. *)
Definition index (m : t) (key : string) : option string :=
  match m with
  | Some entries => entries !! key
  | None => None
  end.

(** [m[key] = val] on the map the receiver state refers to. *)
Definition assign (key val : string) : M t unit :=
  m <- getS ;;
  match m with
  | Some entries => putS (Some (<[key := val]> entries))
  | None => panic (runtime_error "assignment to entry in nil map")
  end.
End GoMap.

(** ** dataset.go *)

Definition selectkey : string := "select".

(** [interface{}] values, as far as this package looks into them. *)
#[local] Set Warnings "-register-all".
Inductive any : Type :=
  | any_nil
  | any_int (n : Z)
  | any_string (s : string)
  | any_struct (fields : list (string * any))
  | any_slice (elems : list any).

Module Statements.
(** [type Statements map[string]string] *)
Abbreviation t := GoMap.t.

Definition Get (key : string) : M t (string * option error) :=
  s <- getS ;;
  match GoMap.index s key with
  | Some val => ret (val, None)
  | None => ret ("", Some (errors_New "Invalid statement"))
  end.

Definition GetOrPanic (key : string) : M t string :=
  s <- getS ;;
  match GoMap.index s key with
  | Some val => ret val
  | None => panic (errors_New "Invalid statement")
  end.
End Statements.

Module TableDataSet.
Record t : Type := mk {
  Name : string;
  Schema : string; (* optional *)
  Statements : Statements.t;
  TableFields : any
}.

Definition set_Statements (s : Statements.t) (d : t) : t :=
  {| Name := Name d; Schema := Schema d; Statements := s;
     TableFields := TableFields d |}.

Definition Fields : M t any :=
  d <- getS ;; ret (TableFields d).

(** [fmt.Sprintf("%s.%s", t.Schema, t.Name)] is the two strings around a
    dot. *)
Definition Entity : M t string :=
  d <- getS ;;
  if decide (Schema d ≠ "")
  then ret (Schema d +:+ "." +:+ Name d)
  else ret (Name d).

Definition Commands : M t Statements.t :=
  d <- getS ;; ret (Statements d).

Definition PutCommand (key stmt : string) : M t unit :=
  d <- getS ;;
  (if decide (Statements d = None)
   then putS (set_Statements GoMap.make d)
   else ret tt) ;;;
  zoom Statements set_Statements (GoMap.assign selectkey stmt).
End TableDataSet.

(** ** Go's [int] *)

Definition int_min : Z := - 2 ^ 63.
Definition int_max : Z := 2 ^ 63 - 1.
Definition is_int (z : Z) : Prop := int_min ≤ z ≤ int_max.

(** The value of a mathematical integer as an [int]: two's complement, no
    overflow check. *)
Definition int_wrap (z : Z) : Z := (z + 2 ^ 63) `mod` 2 ^ 64 - 2 ^ 63.
Definition int_add (a b : Z) : Z := int_wrap (a + b).

(** ** dialect_duckdb.go *)

Module DbDialect.
Record t : Type := mk {
  TableExistsStmt : string;
  Bind : string → Z → string
}.
End DbDialect.

(** [fmt.Sprintf("$%d", n)] is a dollar sign before the decimal numeral of
    [n], with a minus sign for a negative [n]. *)
Definition duckdbDialect : DbDialect.t :=
  {| DbDialect.TableExistsStmt :=
       "SELECT EXISTS (SELECT 1 FROM information_schema.tables WHERE table_name = $1)";
     DbDialect.Bind := λ (field : string) (i : Z),
       "$" +:+ pretty (int_add i 1) |}.

(** ** fluent_insert.go *)

(** Addresses of heap objects.  A pointer that addresses nothing in the heap
    at hand plays the part of [nil]: dereferencing it panics. *)
Abbreviation loc := positive.

(** A [DataSet] interface value and a [*Tx]: [nil], or the address of the
    object.  Neither is looked into by the builder. *)
Abbreviation DataSet := (option loc).
Abbreviation TxPtr := (option loc).

(** The argument record of [InsertRecs], with the fields that [Execute]
    fills in. *)
Module InsertInput.
Record t : Type := mk {
  Dataset : DataSet;
  Records : any;
  Batch : bool;
  BatchSize : Z;
  PanicOnErr : bool
}.
End InsertInput.

(** The [DataStore] interface, as far as the builder calls it.  A store acts
    on a world of type [W] (the database behind it and the data sets it may
    write to); [InsertRecs] returns an [error] ([None] is [nil]) or panics. *)
Module DataStore.
Record t (W : Type) : Type := mk {
  InsertRecs : TxPtr → InsertInput.t → M W (option error)
}.
Arguments mk {W} _.
Arguments InsertRecs {W} _ _ _.
End DataStore.

Definition defaultBatchSize : Z := 100.

Module FluentInsert.
Record t (W : Type) : Type := mk {
  store : DataStore.t W;
  ds : DataSet;
  batch : bool;
  batchSize : Z;
  tx : TxPtr;
  records : any;
  panicOnErr : bool
}.
Arguments mk {W} _ _ _ _ _ _ _.
Arguments store {W} _.
Arguments ds {W} _.
Arguments batch {W} _.
Arguments batchSize {W} _.
Arguments tx {W} _.
Arguments records {W} _.
Arguments panicOnErr {W} _.

(** The builders allocated so far, and the world of their stores. *)
Record state (W : Type) : Type := mkState {
  builders : gmap loc (t W);
  world : W
}.
Arguments mkState {W} _ _.
Arguments builders {W} _.
Arguments world {W} _.

Section methods.
Context {W : Type}.

Definition set_builders (h : gmap loc (t W)) (σ : state W) : state W :=
  mkState h (world σ).
Definition set_world (w : W) (σ : state W) : state W :=
  mkState (builders σ) w.

(** [*i] as a value, and the write [*i = b]. *)
Definition load (i : loc) : M (state W) (t W) :=
  σ <- getS ;;
  match builders σ !! i with
  | Some b => ret b
  | None =>
      panic (runtime_error "invalid memory address or nil pointer dereference")
  end.
Definition store_to (i : loc) (b : t W) : M (state W) unit :=
  σ <- getS ;; putS (set_builders (<[i := b]> (builders σ)) σ).

(** [i.f = v], for each field that a method assigns. *)
Definition assign_field (i : loc) (upd : t W → t W) : M (state W) unit :=
  b <- load i ;; store_to i (upd b).

Definition set_tx (v : TxPtr) (b : t W) : t W :=
  mk (store b) (ds b) (batch b) (batchSize b) v (records b) (panicOnErr b).
Definition set_batch (v : bool) (b : t W) : t W :=
  mk (store b) (ds b) v (batchSize b) (tx b) (records b) (panicOnErr b).
Definition set_batchSize (v : Z) (b : t W) : t W :=
  mk (store b) (ds b) (batch b) v (tx b) (records b) (panicOnErr b).
Definition set_records (v : any) (b : t W) : t W :=
  mk (store b) (ds b) (batch b) (batchSize b) (tx b) v (panicOnErr b).
Definition set_panicOnErr (v : bool) (b : t W) : t W :=
  mk (store b) (ds b) (batch b) (batchSize b) (tx b) (records b) v.

Definition Tx (i : loc) (tx : TxPtr) : M (state W) loc :=
  assign_field i (set_tx tx) ;;;
  ret i.

Definition Batch (i : loc) (batch : bool) : M (state W) loc :=
  assign_field i (set_batch batch) ;;;
  ret i.

Definition BatchSize (i : loc) (bs : Z) : M (state W) loc :=
  assign_field i (set_batchSize bs) ;;;
  ret i.

Definition Records (i : loc) (recs : any) : M (state W) loc :=
  assign_field i (set_records recs) ;;;
  ret i.

Definition PanicOnErr (i : loc) (panicOnErr : bool) : M (state W) loc :=
  assign_field i (set_panicOnErr panicOnErr) ;;;
  ret i.

Definition Execute (i : loc) : M (state W) (option error) :=
  b <- load i ;;
  let ii :=
    {| InsertInput.Dataset := ds b;
       InsertInput.Records := records b;
       InsertInput.Batch := batch b;
       InsertInput.BatchSize := batchSize b;
       InsertInput.PanicOnErr := panicOnErr b |} in
  zoom world set_world (DataStore.InsertRecs (store b) (tx b) ii).

(** The configuration calls of the builder, as data: which method, with
    which argument. *)
Inductive call : Type :=
  | call_Tx (tx : TxPtr)
  | call_Batch (batch : bool)
  | call_BatchSize (bs : Z)
  | call_Records (recs : any)
  | call_PanicOnErr (panicOnErr : bool).

Definition invoke (c : call) (i : loc) : M (state W) loc :=
  match c with
  | call_Tx tx => Tx i tx
  | call_Batch batch => Batch i batch
  | call_BatchSize bs => BatchSize i bs
  | call_Records recs => Records i recs
  | call_PanicOnErr panicOnErr => PanicOnErr i panicOnErr
  end.

(** The assignment that a configuration call makes to the builder. *)
Definition update (c : call) (b : t W) : t W :=
  match c with
  | call_Tx v => set_tx v b
  | call_Batch v => set_batch v b
  | call_BatchSize v => set_batchSize v b
  | call_Records v => set_records v b
  | call_PanicOnErr v => set_panicOnErr v b
  end.

(** A chain [i.m1(a1).m2(a2)...]: each call is made on what the call
    before it returned. *)
Fixpoint chain (cs : list call) (i : loc) : M (state W) loc :=
  match cs with
  | [] => ret i
  | c :: cs' => i' <- invoke c i ;; chain cs' i'
  end.
End methods.

(** The field of the builder that a configuration call assigns. *)
Inductive field : Type :=
  | field_tx | field_batch | field_batchSize | field_records
  | field_panicOnErr.

Definition assigns (c : call) : field :=
  match c with
  | call_Tx _ => field_tx
  | call_Batch _ => field_batch
  | call_BatchSize _ => field_batchSize
  | call_Records _ => field_records
  | call_PanicOnErr _ => field_panicOnErr
  end.
End FluentInsert.

(** ** The store behind the builder *)

(** The files of the package that implement [DataStore] are not among the
    sources embedded above.  What the builder needs of them is modelled here
    from the specification of the package. *)
Module Store.
Import FluentInsert.

(** Modelled from the spec: the constructor [Insert] of a store, which is
    missing from the sources.  "Insert(dataset) -> builder: returns a Fluent
    Insert bound to the dataset"; the batch size of a new builder is the
    default one ("BatchSize (default 100)"), every other setting is the zero
    value of its type.  The builder is a new heap object. *)
Definition Insert {W} (s : DataStore.t W) (d : DataSet) : M (state W) loc :=
  σ <- getS ;;
  let i := fresh (dom (builders σ)) in
  store_to i (mk s d false defaultBatchSize None any_nil false) ;;;
  ret i.

(** Modelled from the spec: how the missing [InsertRecs] reads the records
    of its input.  "Records: either a single record value or a contiguous
    collection of records"; [nil] is neither and holds no record. *)
Definition records_of (recs : any) : list any :=
  match recs with
  | any_nil => []
  | any_slice elems => elems
  | rec => [rec]
  end.

Fixpoint chunks_go (fuel : nat) (n : nat) (l : list any) : list (list any) :=
  match fuel, l with
  | S fuel', _ :: _ => take n l :: chunks_go fuel' n (drop n l)
  | _, _ => []
  end.

(** Modelled from the spec: the grouping of the missing [InsertRecs].
    "records are grouped into chunks of at most BatchSize": consecutive
    records, [bs] to a chunk until they run out.  The spec names no grouping
    for a batch size that is not positive, and none is made here. *)
Definition chunks (bs : Z) (l : list any) : list (list any) :=
  if decide (0 < bs) then chunks_go (length l) (Z.to_nat bs) l else [].

(** What a store hands to its backend: one statement for one record, or one
    batch operation for a chunk of records. *)
Inductive submission : Type :=
  | statement (rec : any)
  | batch_op (recs : list any).

(** Modelled from the spec: the submissions of the missing [InsertRecs].
    "when enabled, records are grouped into chunks of at most BatchSize and
    submitted as backend batch operations rather than one statement per
    record". *)
Definition submissions (ii : InsertInput.t) : list submission :=
  if InsertInput.Batch ii
  then batch_op <$> chunks (InsertInput.BatchSize ii)
                           (records_of (InsertInput.Records ii))
  else statement <$> records_of (InsertInput.Records ii).

(** Modelled from the spec: a store whose backend accepts whatever it is
    sent and keeps it, in the order of submission.  Its world is the list
    of what was submitted so far. *)
Definition InsertRecs (tx : TxPtr) (ii : InsertInput.t)
    : M (list submission) (option error) :=
  w <- getS ;;
  putS (w ++ submissions ii)%list ;;;
  ret None.

Definition recording : DataStore.t (list submission) :=
  DataStore.mk InsertRecs.

(** The argument of the last call in [cs] of the method that [pick]
    recognises, if there is such a call. *)
Definition configured {A} (pick : call → option A) (cs : list call)
    : option A :=
  last (omap pick cs).

Definition pick_Batch (c : call) : option bool :=
  match c with call_Batch b => Some b | _ => None end.
Definition pick_BatchSize (c : call) : option Z :=
  match c with call_BatchSize bs => Some bs | _ => None end.
Definition pick_Records (c : call) : option any :=
  match c with call_Records recs => Some recs | _ => None end.
End Store.

(** ** Sample objects *)

(** A builder at address 1 over the recording store, bound to the data set
    at address 7, inside the transaction at address 3. *)
Definition sample_builder : FluentInsert.t (list Store.submission) :=
  FluentInsert.mk Store.recording (Some 7%positive) false defaultBatchSize
     (Some 3%positive) (any_string "spot") false.
Definition sample_state : FluentInsert.state (list Store.submission) :=
  FluentInsert.mkState {[ 1%positive := sample_builder ]} [].

(** ** Vocabulary of the properties *)

Definition pick_Tx (c : FluentInsert.call) : option TxPtr :=
  match c with FluentInsert.call_Tx tx => Some tx | _ => None end.
Definition pick_PanicOnErr (c : FluentInsert.call) : option bool :=
  match c with FluentInsert.call_PanicOnErr p => Some p | _ => None end.

(** The builder after the assignments of a list of calls, first to last. *)
Definition configure {W} (cs : list FluentInsert.call)
    (b : FluentInsert.t W) : FluentInsert.t W :=
  foldl (λ b c, FluentInsert.update c b) b cs.

(** The input that [Execute] makes of a builder. *)
Definition input_of {W} (b : FluentInsert.t W) : InsertInput.t :=
  InsertInput.mk (FluentInsert.ds b) (FluentInsert.records b)
    (FluentInsert.batch b) (FluentInsert.batchSize b)
    (FluentInsert.panicOnErr b).

(** Strings without a dot, and strings of decimal digits. *)
Fixpoint dotless (s : string) : bool :=
  match s with
  | EmptyString => true
  | String c s' => if decide (c = "."%char) then false else dotless s'
  end.

Definition is_digit (c : ascii) : bool :=
  bool_decide (c ∈ ["0"; "1"; "2"; "3"; "4"; "5"; "6"; "7"; "8"; "9"]%char).

Fixpoint all_digits (s : string) : bool :=
  match s with
  | EmptyString => true
  | String c s' => is_digit c && all_digits s'
  end.

(** * Properties *)

(** Unfold the monad and the small Go primitives of the embedding. *)
Ltac go_unfold :=
  unfold bind, ret, panic, getS, putS, zoom, GoMap.assign, GoMap.make in *.

(** ** The statement cache *)

Section statements.
Import Statements.

Lemma Get_found (s : Statements.t) (key val : string) :
  GoMap.index s key = Some val → Get key s = (Ret (val, None), s).
Proof. intros H. unfold Get. go_unfold. by rewrite H. Qed.

Lemma Get_missing (s : Statements.t) (key : string) :
  GoMap.index s key = None →
  Get key s = (Ret ("", Some (errors_New "Invalid statement")), s).
Proof. intros H. unfold Get. go_unfold. by rewrite H. Qed.

Lemma GetOrPanic_found (s : Statements.t) (key val : string) :
  GoMap.index s key = Some val → GetOrPanic key s = (Ret val, s).
Proof. intros H. unfold GetOrPanic. go_unfold. by rewrite H. Qed.

Lemma GetOrPanic_missing (s : Statements.t) (key : string) :
  GoMap.index s key = None →
  GetOrPanic key s = (Panic (errors_New "Invalid statement"), s).
Proof. intros H. unfold GetOrPanic. go_unfold. by rewrite H. Qed.

(** C2.  [Get] returns an error exactly when the key is absent and the
    cached text otherwise; [GetOrPanic] panics exactly when the key is
    absent and otherwise returns the text that [Get] returns; neither
    changes the cache. *)
Theorem Statements_lookup (s : Statements.t) (key : string) :
  ((∃ val e, Get key s = (Ret (val, Some e), s)) ↔ GoMap.index s key = None)
  ∧ (∀ val, Get key s = (Ret (val, None), s) ↔ GoMap.index s key = Some val)
  ∧ ((∃ e, GetOrPanic key s = (Panic e, s)) ↔ GoMap.index s key = None)
  ∧ (∀ val, GetOrPanic key s = (Ret val, s) ↔ Get key s = (Ret (val, None), s))
  ∧ (Get key s).2 = s
  ∧ (GetOrPanic key s).2 = s.
Proof.
  destruct (GoMap.index s key) as [v|] eqn:Hk.
  - rewrite (Get_found _ _ _ Hk), (GetOrPanic_found _ _ _ Hk).
    repeat split; try done; try (intros (? & ? & [=])); try (intros (? & [=]));
      intros; by simplify_eq.
  - rewrite (Get_missing _ _ Hk), (GetOrPanic_missing _ _ Hk).
    repeat split; try done; eauto.
Qed.
End statements.

(** ** Table data sets *)

Section datasets.
Import TableDataSet.

(** C3.  [Entity] is the schema, a dot and the table name when the schema is
    not empty, and the bare table name when it is. *)
Theorem Entity_qualified (d : TableDataSet.t) :
  (Schema d ≠ "" → Entity d = (Ret (Schema d +:+ "." +:+ Name d), d))
  ∧ (Schema d = "" → Entity d = (Ret (Name d), d)).
Proof.
  unfold Entity. go_unfold.
  split; intros H; by destruct (decide (Schema d ≠ "")).
Qed.

Example Entity_with_schema :
  Entity (mk "fishing_spots" "public" None any_nil)
  = (Ret "public.fishing_spots", mk "fishing_spots" "public" None any_nil).
Proof. reflexivity. Qed.

Example Entity_without_schema :
  Entity (mk "fishing_spots" "" None any_nil)
  = (Ret "fishing_spots", mk "fishing_spots" "" None any_nil).
Proof. reflexivity. Qed.

(** What [PutCommand] does, in one equation: the statement goes under
    [selectkey], into a new map when the data set had none. *)
Lemma PutCommand_run (d : TableDataSet.t) (key stmt : string) :
  PutCommand key stmt d
  = (Ret tt,
     set_Statements
       (Some (<[selectkey := stmt]> (default ∅ (Statements d)))) d).
Proof.
  unfold PutCommand. go_unfold.
  destruct d as [n sc [entries|] f]; simpl.
  - by destruct (decide (Some entries = None)).
  - by destruct (decide (@None (gmap string string) = None)).
Qed.

(** C8.  [PutCommand] returns, without a panic, on every data set, the ones
    whose statement cache is the nil map included; afterwards the cache is a
    map. *)
Theorem PutCommand_never_panics (d : TableDataSet.t) (key stmt : string) :
  ∃ d', PutCommand key stmt d = (Ret tt, d') ∧ Statements d' ≠ None.
Proof. rewrite PutCommand_run. eexists. split; [done|]. by simpl. Qed.

Example PutCommand_on_nil_cache :
  (PutCommand "insert" "insert into t (a) values ($1)"
     (mk "t" "" None any_nil)).1 = Ret tt.
Proof. by rewrite PutCommand_run. Qed.

(** C9.  [PutCommand] writes the cache at the key ["select"] and nowhere
    else: every other key reads as before, and the name, the schema and the
    table fields of the data set stay as they were. *)
Theorem PutCommand_frame (d : TableDataSet.t) (key stmt : string) :
  ∃ d', PutCommand key stmt d = (Ret tt, d')
    ∧ (∀ k, k ≠ "select" →
         GoMap.index (Statements d') k = GoMap.index (Statements d) k)
    ∧ Name d' = Name d
    ∧ Schema d' = Schema d
    ∧ TableFields d' = TableFields d.
Proof.
  rewrite PutCommand_run. eexists. split; [done|]. simpl.
  repeat split. intros k Hk.
  rewrite lookup_insert_ne by done.
  by destruct (Statements d).
Qed.

(** The key under which the statement can be read back is [selectkey],
    whatever key was passed. *)
Lemma PutCommand_writes_select (d : TableDataSet.t) (key stmt : string) :
  GoMap.index (Statements (PutCommand key stmt d).2) selectkey = Some stmt.
Proof. rewrite PutCommand_run. simpl. by rewrite lookup_insert_eq. Qed.

(** C1, on the code.  A generated insert statement put under the key
    ["insert"] into a data set without statements is not found there
    afterwards: [Get] answers with its error, and the text sits under
    ["select"]. *)
Theorem PutCommand_insert_key_lost :
  (PutCommand "insert" "insert into fishing_spots (location) values ($1)" ;;;
   zoom Statements set_Statements (Statements.Get "insert"))
    (mk "fishing_spots" "" None any_nil)
  = (Ret ("", Some (errors_New "Invalid statement")),
     mk "fishing_spots" ""
        (Some {[ "select" :=
                 "insert into fishing_spots (location) values ($1)" ]})
        any_nil).
Proof.
  unfold bind at 1. rewrite PutCommand_run. unfold zoom, set_Statements.
  simpl. rewrite Get_missing; [done|]. simpl.
  by rewrite lookup_insert_ne.
Qed.
End datasets.

(** ** The DuckDB dialect *)

Section dialect.

Lemma int_wrap_id (z : Z) : is_int z → int_wrap z = z.
Proof.
  unfold is_int, int_min, int_max, int_wrap. intros Hz.
  rewrite Z.mod_small; lia.
Qed.

Lemma int_wrap_is_int (z : Z) : is_int (int_wrap z).
Proof.
  unfold is_int, int_min, int_max, int_wrap.
  pose proof (Z.mod_pos_bound (z + 2 ^ 63) (2 ^ 64)). lia.
Qed.

(** The successor of an [int] wraps at [int_max] only. *)
Lemma int_add_1 (i : Z) :
  is_int i → int_add i 1 = if decide (i = int_max) then int_min else i + 1.
Proof.
  intros Hi. unfold int_add. destruct (decide (i = int_max)) as [->|Hne].
  - reflexivity.
  - apply int_wrap_id. unfold is_int, int_min, int_max in *. lia.
Qed.

Lemma int_add_1_inj (i j : Z) :
  is_int i → is_int j → int_add i 1 = int_add j 1 → i = j.
Proof.
  intros Hi Hj. rewrite !int_add_1 by done.
  unfold is_int, int_min, int_max in *.
  repeat case_decide; lia.
Qed.

Lemma Bind_eq (field : string) (i : Z) :
  DbDialect.Bind duckdbDialect field i = "$" +:+ pretty (int_add i 1).
Proof. reflexivity. Qed.

(** C5.  The placeholder does not depend on the field argument. *)
Theorem Bind_ignores_field (i : Z) (f1 f2 : string) :
  DbDialect.Bind duckdbDialect f1 i = DbDialect.Bind duckdbDialect f2 i.
Proof. reflexivity. Qed.

(** C4, as the code has it.  For an index [i] from 0 up to, but not
    including, the largest [int], [Bind] gives ["$"] before the decimal
    numeral of [i + 1]; and two different [int] indices, whatever the field
    arguments, get different placeholders. *)
Theorem Bind_placeholder :
  (∀ (field : string) (i : Z),
     0 ≤ i < int_max →
     DbDialect.Bind duckdbDialect field i = "$" +:+ pretty (i + 1))
  ∧ (∀ (f1 f2 : string) (i j : Z),
       is_int i → is_int j → i ≠ j →
       DbDialect.Bind duckdbDialect f1 i ≠ DbDialect.Bind duckdbDialect f2 j).
Proof.
  split.
  - intros field i Hi. rewrite Bind_eq, int_add_1.
    + case_decide; [lia|done].
    + unfold is_int, int_min, int_max in *. lia.
  - intros f1 f2 i j Hi Hj Hne. rewrite !Bind_eq. intros Heq.
    apply Hne, int_add_1_inj; [done..|].
    simpl in Heq. injection Heq as Heq. by apply (inj pretty).
Qed.

Lemma Bind_placeholder_witness :
  DbDialect.Bind duckdbDialect "location" 0 = "$" +:+ pretty (0 + 1)
  ∧ DbDialect.Bind duckdbDialect "id" 0
    ≠ DbDialect.Bind duckdbDialect "location" 1.
Proof.
  split.
  - apply (proj1 Bind_placeholder). unfold int_max. lia.
  - apply (proj2 Bind_placeholder); unfold is_int, int_min, int_max; lia.
Defined.

Example Bind_first : DbDialect.Bind duckdbDialect "id" 0 = "$1".
Proof. reflexivity. Qed.

Example Bind_tenth : DbDialect.Bind duckdbDialect "" 9 = "$10".
Proof. reflexivity. Qed.

(** C4, as stated, fails at the largest [int]: it is not negative, its
    successor wraps to the smallest [int], and the placeholder is a dollar
    sign before a negative numeral, not before the numeral of [i + 1]. *)
Lemma Bind_at_int_max :
  0 ≤ 9223372036854775807
  ∧ is_int 9223372036854775807
  ∧ DbDialect.Bind duckdbDialect "id" 9223372036854775807
    = "$-9223372036854775808"
  ∧ "$" +:+ pretty (9223372036854775807 + 1) = "$9223372036854775808"
  ∧ DbDialect.Bind duckdbDialect "id" 9223372036854775807
    ≠ "$" +:+ pretty (9223372036854775807 + 1).
Proof.
  split; [lia|]. split; [unfold is_int, int_min, int_max; lia|].
  split; [by vm_compute|]. split; [by vm_compute|]. by vm_compute.
Qed.
End dialect.

(** ** The fluent insert builder *)

Section builder.
Import FluentInsert.
Context {W : Type}.
Implicit Types (σ : state W) (b : t W) (i : loc) (c : call).

Lemma load_allocated σ i b :
  builders σ !! i = Some b → load i σ = (Ret b, σ).
Proof. intros H. unfold load. go_unfold. by rewrite H. Qed.


Lemma invoke_allocated σ i b c :
  builders σ !! i = Some b →
  invoke c i σ = (Ret i, set_builders (<[i := update c b]> (builders σ)) σ).
Proof.
  intros H.
  destruct c; simpl;
    unfold Tx, Batch, BatchSize, Records, PanicOnErr, assign_field, bind;
    rewrite (load_allocated _ _ _ H); reflexivity.
Qed.


Lemma update_commute c1 c2 b :
  assigns c1 ≠ assigns c2 → update c2 (update c1 b) = update c1 (update c2 b).
Proof. destruct c1, c2; simpl; intros H; done. Qed.

Lemma set_builders_twice (h1 h2 : gmap loc (t W)) σ :
  set_builders h2 (set_builders h1 σ) = set_builders h2 σ.
Proof. reflexivity. Qed.

Lemma chain_two_allocated σ i b c1 c2 :
  builders σ !! i = Some b →
  chain [c1; c2] i σ
  = (Ret i, set_builders (<[i := update c2 (update c1 b)]> (builders σ)) σ).
Proof.
  intros H. simpl. unfold bind at 1.
  rewrite (invoke_allocated _ _ _ _ H).
  unfold bind. erewrite invoke_allocated; last by apply lookup_insert_eq.
  unfold ret, set_builders. simpl. by rewrite insert_insert_eq.
Qed.

(** C7.  On an allocated builder every configuration call returns the
    pointer it was called on, and two calls that assign different fields can
    be chained in either order: the returned pointer and the whole state are
    the same. *)
Theorem configuration_calls_commute σ i c1 c2 :
  is_Some (builders σ !! i) →
  (∃ σ', invoke c1 i σ = (Ret i, σ'))
  ∧ (assigns c1 ≠ assigns c2 → chain [c1; c2] i σ = chain [c2; c1] i σ).
Proof.
  intros [b Hb]. split.
  - rewrite (invoke_allocated _ _ _ _ Hb). eauto.
  - intros Hne.
    rewrite !(chain_two_allocated _ _ _ _ _ Hb).
    by rewrite (update_commute _ _ _ Hne).
Qed.

Lemma Execute_allocated σ i b :
  builders σ !! i = Some b →
  Execute i σ
  = zoom world set_world
      (DataStore.InsertRecs (store b) (tx b)
         (InsertInput.mk (ds b) (records b) (batch b) (batchSize b)
            (panicOnErr b))) σ.
Proof.
  intros Hb. unfold Execute, bind. by rewrite (load_allocated _ _ _ Hb).
Qed.

(** C10.  On an allocated builder [Execute] is the call of the store's
    [InsertRecs] on the builder's transaction and on an input with the
    builder's data set, records, batch flag, batch size and panic flag: its
    result, a returned error or a panic alike, is the result of [Execute],
    the store's world is what that call left, and no builder is changed. *)
Theorem Execute_calls_InsertRecs σ i b (r : result (option error)) (w : W) :
  builders σ !! i = Some b →
  DataStore.InsertRecs (store b) (tx b)
    (InsertInput.mk (ds b) (records b) (batch b) (batchSize b) (panicOnErr b))
    (world σ) = (r, w) →
  Execute i σ = (r, mkState (builders σ) w).
Proof.
  intros Hb Hrun. rewrite (Execute_allocated _ _ _ Hb). unfold zoom.
  by rewrite Hrun.
Qed.
End builder.

Section builder_examples.
Import FluentInsert.

Lemma sample_state_lookup : builders sample_state !! 1%positive = Some sample_builder.
Proof. reflexivity. Defined.

Lemma configuration_calls_commute_witness :
  (∃ σ', invoke (call_Batch true) 1%positive sample_state = (Ret 1%positive, σ'))
  ∧ chain [call_Batch true; call_BatchSize 50] 1%positive sample_state
    = chain [call_BatchSize 50; call_Batch true] 1%positive sample_state.
Proof.
  destruct (configuration_calls_commute sample_state 1%positive
              (call_Batch true) (call_BatchSize 50)) as [Hret Hcomm].
  - exists sample_builder. reflexivity.
  - split; [exact Hret|]. apply Hcomm. simpl. discriminate.
Defined.

Lemma Execute_calls_InsertRecs_witness :
  Execute 1%positive sample_state
  = (Ret None,
     mkState (builders sample_state) [Store.statement (any_string "spot")]).
Proof.
  apply (Execute_calls_InsertRecs sample_state 1%positive sample_builder).
  - reflexivity.
  - reflexivity.
Defined.
End builder_examples.

(** ** Batches *)

Section batches.
Import FluentInsert Store.
Implicit Types (cs : list call) (l : list any).

(** With a positive chunk size and fuel for every record, the chunks are no
    longer than the size, none is empty, and together they are the records in
    their order. *)
Lemma chunks_go_spec (n : nat) (fuel : nat) l :
  (0 < n)%nat → (length l ≤ fuel)%nat →
  Forall (λ g, (0 < length g ≤ n)%nat) (chunks_go fuel n l)
  ∧ concat (chunks_go fuel n l) = l.
Proof.
  intros Hn. revert l.
  induction fuel as [|fuel IH]; intros l Hlen.
  - destruct l; [done|]. simpl in Hlen. lia.
  - destruct l as [|x l']; [done|].
    cbn [chunks_go].
    destruct (IH (drop n (x :: l'))) as [Hall Hcat].
    { rewrite length_drop. simpl in *. lia. }
    split.
    + constructor; [|done].
      rewrite length_take. simpl. lia.
    + cbn [concat]. rewrite Hcat. apply take_drop.
Qed.

Lemma chunks_spec (bs : Z) l :
  0 < bs →
  Forall (λ g, 0 < Z.of_nat (length g) ≤ bs) (chunks bs l)
  ∧ concat (chunks bs l) = l.
Proof.
  intros Hbs. unfold chunks. rewrite decide_True by done.
  destruct (chunks_go_spec (Z.to_nat bs) (length l) l) as [Hall Hcat];
    [lia|done|].
  split; [|done].
  eapply Forall_impl; [exact Hall|]. simpl. intros g Hg. lia.
Qed.

(** No chunk is longer than the batch size, whatever the size. *)
Lemma chunks_bound (bs : Z) l :
  Forall (λ g, Z.of_nat (length g) ≤ bs) (chunks bs l).
Proof.
  destruct (decide (0 < bs)) as [Hbs|Hbs].
  - eapply Forall_impl; [exact (proj1 (chunks_spec bs l Hbs))|].
    simpl. intros g Hg. lia.
  - unfold chunks. by rewrite decide_False.
Qed.

(** A chain of configuration calls on an allocated builder makes the
    assignments of its calls, one after the other, and returns the builder. *)
Lemma chain_allocated {W} (σ : state W) (i : loc) (b : FluentInsert.t W) cs :
  builders σ !! i = Some b →
  chain cs i σ
  = (Ret i,
     set_builders (<[i := foldl (λ b c, update c b) b cs]> (builders σ)) σ).
Proof.
  revert σ b. induction cs as [|c cs IH]; intros σ b Hb.
  - simpl. unfold ret, set_builders. rewrite insert_id by done.
    by destruct σ.
  - cbn [chain]. unfold bind. rewrite (invoke_allocated _ _ _ _ Hb).
    rewrite (IH _ (update c b)); last by apply lookup_insert_eq.
    unfold set_builders. simpl. by rewrite insert_insert_eq.
Qed.

(** What a field holds after a chain of calls: the argument of the last call
    that assigns it, or what it held before. *)
Lemma foldl_update_field {W A} (proj : FluentInsert.t W → A)
    (pick : call → option A) (b : FluentInsert.t W) cs :
  (∀ c b', proj (update c b') = default (proj b') (pick c)) →
  proj (foldl (λ b c, update c b) b cs)
  = default (proj b) (configured pick cs).
Proof.
  intros Hproj. unfold configured.
  induction cs as [|c cs IH] using rev_ind; [done|].
  rewrite foldl_snoc, Hproj, IH, omap_app. simpl.
  destruct (pick c) as [a|]; simpl.
  - by rewrite last_snoc.
  - by rewrite app_nil_r.
Qed.

Lemma Insert_run {W} (s : DataStore.t W) (d : DataSet) (σ : state W) :
  Insert s d σ
  = (Ret (fresh (dom (builders σ))),
     set_builders
       (<[fresh (dom (builders σ)) :=
            mk s d false defaultBatchSize None any_nil false]> (builders σ))
       σ).
Proof. reflexivity. Qed.

(** The builder that [Insert] makes is a new one: no builder that was there
    before is changed. *)
Lemma Insert_fresh {W} (s : DataStore.t W) (d : DataSet) (σ : state W) :
  builders σ !! fresh (dom (builders σ)) = None.
Proof. apply not_elem_of_dom, is_fresh. Qed.
End batches.

Section batch_mode.
Import FluentInsert Store.

Lemma foldl_update_store {W} (b : FluentInsert.t W) (cs : list call) :
  store (foldl (λ b c, update c b) b cs) = store b.
Proof.
  induction cs as [|c cs IH] using rev_ind; [done|].
  rewrite foldl_snoc. by destruct c.
Qed.

Lemma foldl_update_ds {W} (b : FluentInsert.t W) (cs : list call) :
  ds (foldl (λ b c, update c b) b cs) = ds b.
Proof.
  induction cs as [|c cs IH] using rev_ind; [done|].
  rewrite foldl_snoc. by destruct c.
Qed.

(** An insert through the recording store, from the constructor to the
    terminal call: the world grows by the submissions for the settings that the
    chain of calls left in the builder. *)
Lemma insert_run (d : DataSet) (cs : list call) (σ : state (list submission)) :
  ∃ σ',
    (i <- Insert recording d ;; i' <- chain cs i ;; Execute i') σ
    = (Ret None, σ')
    ∧ world σ'
      = (world σ
         ++ submissions
              (InsertInput.mk d
                 (default any_nil (configured pick_Records cs))
                 (default false (configured pick_Batch cs))
                 (default defaultBatchSize (configured pick_BatchSize cs))
                 (default false
                    (configured
                       (λ c, match c with
                             | call_PanicOnErr p => Some p
                             | _ => None
                             end) cs))))%list.
Proof.
  unfold bind at 1. rewrite Insert_run. cbv beta iota.
  unfold bind at 1.
  erewrite chain_allocated; last by apply lookup_insert_eq.
  cbv beta iota.
  erewrite Execute_allocated; last by apply lookup_insert_eq.
  rewrite foldl_update_store.
  rewrite (foldl_update_field records pick_Records) by (by intros []).
  rewrite (foldl_update_field batch pick_Batch) by (by intros []).
  rewrite (foldl_update_field batchSize pick_BatchSize) by (by intros []).
  rewrite (foldl_update_field panicOnErr
             (λ c, match c with call_PanicOnErr p => Some p | _ => None end))
    by (by intros []).
  rewrite foldl_update_ds.
  eexists. split; reflexivity.
Qed.

(** C6.  With batch mode switched on, an insert submits batch operations
    only; when no call set the batch size, each holds at most 100 records,
    and when the last such call set it to [bs], each holds at most [bs].
    For the default size and for a positive [bs] the batches are the records,
    in their order. *)
Theorem batches_bounded (d : DataSet) (cs : list call)
    (σ : state (list submission)) :
  configured pick_Batch cs = Some true →
  ∃ σ' groups,
    (i <- Insert recording d ;; i' <- chain cs i ;; Execute i') σ
    = (Ret None, σ')
    ∧ world σ' = (world σ ++ (batch_op <$> groups))%list
    ∧ (configured pick_BatchSize cs = None →
         Forall (λ g, Z.of_nat (length g) ≤ 100) groups
         ∧ concat groups
           = records_of (default any_nil (configured pick_Records cs)))
    ∧ (∀ bs, configured pick_BatchSize cs = Some bs →
         Forall (λ g, Z.of_nat (length g) ≤ bs) groups
         ∧ (0 < bs →
            concat groups
            = records_of (default any_nil (configured pick_Records cs)))).
Proof.
  intros Hbatch.
  destruct (insert_run d cs σ) as (σ' & Hrun & Hworld).
  rewrite Hbatch in Hworld. unfold submissions in Hworld. simpl in Hworld.
  eexists σ', _. split; [exact Hrun|]. split; [exact Hworld|].
  split.
  - intros ->. simpl.
    destruct (chunks_spec defaultBatchSize
                (records_of (default any_nil (configured pick_Records cs))))
      as [Hall Hcat]; [done|].
    split; [|done].
    eapply Forall_impl; [exact Hall|]. simpl. unfold defaultBatchSize. lia.
  - intros bs ->. simpl. split.
    + apply chunks_bound.
    + intros Hbs. by apply chunks_spec.
Qed.

Lemma batches_bounded_witness :
  ∃ σ' groups,
    (i <- Insert recording (Some 7%positive) ;;
     i' <- chain [call_Records (any_slice [any_int 1; any_int 2; any_int 3]);
                  call_BatchSize 2; call_Batch true] i ;;
     Execute i') (mkState ∅ [])
    = (Ret None, σ')
    ∧ world σ' = batch_op <$> groups
    ∧ Forall (λ g, Z.of_nat (length g) ≤ 2) groups
    ∧ concat groups = [any_int 1; any_int 2; any_int 3].
Proof.
  destruct (batches_bounded (Some 7%positive)
              [call_Records (any_slice [any_int 1; any_int 2; any_int 3]);
               call_BatchSize 2; call_Batch true] (mkState ∅ []))
    as (σ' & groups & Hrun & Hworld & _ & Hbs).
  - reflexivity.
  - exists σ', groups. split; [exact Hrun|]. split; [exact Hworld|].
    destruct (Hbs 2) as [Hall Hcat]; [reflexivity|].
    split; [exact Hall|]. apply Hcat. lia.
Defined.

Example batches_of_two :
  ((i <- Insert recording (Some 7%positive) ;;
    i' <- chain [call_Records (any_slice [any_int 1; any_int 2; any_int 3]);
                 call_BatchSize 2; call_Batch true] i ;;
    Execute i') (mkState ∅ [])).2.(world)
  = [batch_op [any_int 1; any_int 2]; batch_op [any_int 3]].
Proof. reflexivity. Qed.

Example batches_of_default_size :
  ((i <- Insert recording (Some 7%positive) ;;
    i' <- chain [call_Batch true;
                 call_Records (any_slice (replicate 250 (any_int 0)))] i ;;
    Execute i') (mkState ∅ [])).2.(world)
  = [batch_op (replicate 100 (any_int 0)); batch_op (replicate 100 (any_int 0));
     batch_op (replicate 50 (any_int 0))].
Proof. vm_compute. reflexivity. Qed.
End batch_mode.

(** * Further properties of the code *)

(** ** The statement cache of a data set *)

Section cache.
Import TableDataSet.

(** X1.  Whatever key it is given, [PutCommand] makes the statement readable
    under ["select"]: right after it, [Get] returns the statement and no
    error, and [GetOrPanic] returns it without a panic. *)
Theorem PutCommand_select_round_trip (d : TableDataSet.t) (key stmt : string) :
  (PutCommand key stmt ;;;
   zoom Statements set_Statements (Statements.Get "select")) d
  = (Ret (stmt, None), (PutCommand key stmt d).2)
  ∧ (PutCommand key stmt ;;;
     zoom Statements set_Statements (Statements.GetOrPanic "select")) d
    = (Ret stmt, (PutCommand key stmt d).2).
Proof.
  unfold bind. rewrite PutCommand_run. unfold zoom. cbn [snd Statements set_Statements].
  rewrite (Get_found _ "select" stmt), (GetOrPanic_found _ "select" stmt);
    [done| |]; simpl; apply lookup_insert_eq.
Qed.

(** X2.  A data set keeps one put statement at a time: of two calls of
    [PutCommand], with the same key or with different ones, the second alone
    decides the data set that results. *)
Theorem PutCommand_last_write_wins (d : TableDataSet.t)
    (key1 stmt1 key2 stmt2 : string) :
  (PutCommand key1 stmt1 ;;; PutCommand key2 stmt2) d
  = PutCommand key2 stmt2 d.
Proof.
  unfold bind. rewrite !PutCommand_run. unfold set_Statements. simpl.
  by rewrite insert_insert_eq.
Qed.

(** X3.  After [PutCommand], [Commands] returns a map, never nil, whose keys
    are the keys from before and ["select"], which holds the statement; the
    cache grows by one entry at most. *)
Theorem PutCommand_Commands_keys (d : TableDataSet.t) (key stmt : string) :
  ∃ m, (PutCommand key stmt ;;; Commands) d
       = (Ret (Some m), (PutCommand key stmt d).2)
    ∧ dom m = {[ "select" ]} ∪ dom (default ∅ (Statements d))
    ∧ m !! "select" = Some stmt
    ∧ (size m ≤ S (size (default ∅ (Statements d))))%nat.
Proof.
  unfold bind. rewrite PutCommand_run. unfold Commands. go_unfold.
  cbn [snd Statements set_Statements].
  eexists. split; [reflexivity|].
  split; [by rewrite dom_insert_L|].
  split; [by rewrite lookup_insert_eq|].
  unfold selectkey.
  destruct (default ∅ (Statements d) !! "select") as [old|] eqn:Hold.
  - rewrite <-(insert_delete_id _ _ _ Hold) at 2.
    rewrite <-insert_delete_eq.
    rewrite !map_size_insert_None by apply lookup_delete_eq. lia.
  - by rewrite map_size_insert_None.
Qed.
End cache.

(** ** Entity names *)

Section entity.
Import TableDataSet.

Lemma dotless_app_dot (a b : string) : dotless (a +:+ "." +:+ b) = false.
Proof.
  induction a as [|c a IH]; simpl; [done|].
  by destruct (decide (c = "."%char)).
Qed.

Lemma app_String (c : ascii) (a b : string) :
  String c a +:+ b = String c (a +:+ b).
Proof. reflexivity. Qed.

Lemma app_Empty (b : string) : "" +:+ b = b.
Proof. reflexivity. Qed.

Lemma qualified_inj (a b c d : string) :
  dotless a = true → dotless c = true →
  a +:+ "." +:+ b = c +:+ "." +:+ d → a = c ∧ b = d.
Proof.
  revert c. induction a as [|x a IH]; intros [|y c] Ha Hc Heq;
    rewrite ?app_String, ?app_Empty in Heq; simpl in Ha, Hc.
  - by injection Heq as ->.
  - injection Heq as <- _. by destruct (decide ("."%char = "."%char)).
  - injection Heq as -> _. by destruct (decide ("."%char = "."%char)).
  - injection Heq as -> Heq.
    destruct (decide (y = "."%char)); [done|].
    destruct (IH c Ha Hc Heq) as [-> ->]. done.
Qed.

(** X4.  Among data sets whose schema and table name hold no dot, the entity
    name tells the table: two such data sets with the same entity name have
    the same schema and the same table name. *)
Theorem Entity_injective_dotless (d1 d2 : TableDataSet.t) :
  dotless (Schema d1) = true → dotless (Name d1) = true →
  dotless (Schema d2) = true → dotless (Name d2) = true →
  (Entity d1).1 = (Entity d2).1 →
  Schema d1 = Schema d2 ∧ Name d1 = Name d2.
Proof.
  intros Hs1 Hn1 Hs2 Hn2. unfold Entity. go_unfold.
  destruct (decide (Schema d1 ≠ "")) as [H1|H1],
           (decide (Schema d2 ≠ "")) as [H2|H2]; simpl; intros [= Heq].
  - by apply qualified_inj.
  - rewrite <-Heq, dotless_app_dot in Hn2. done.
  - rewrite Heq, dotless_app_dot in Hn1. done.
  - apply dec_stable in H1. apply dec_stable in H2. by rewrite H1, H2.
Qed.

Lemma Entity_injective_dotless_witness :
  Schema (mk "spots" "public" None any_nil)
  = Schema (mk "spots" "public" (Some ∅) (any_int 1))
  ∧ Name (mk "spots" "public" None any_nil)
    = Name (mk "spots" "public" (Some ∅) (any_int 1)).
Proof.
  apply (Entity_injective_dotless (mk "spots" "public" None any_nil)
           (mk "spots" "public" (Some ∅) (any_int 1))); reflexivity.
Defined.

(** With a dot inside the schema or the name, two different tables can share
    an entity name. *)
Example Entity_clash :
  (Entity (mk "c" "a.b" None any_nil)).1
  = (Entity (mk "b.c" "a" None any_nil)).1.
Proof. reflexivity. Qed.
End entity.

(** ** The shape of a placeholder *)

Section placeholder.

Lemma pretty_N_char_digit (x : N) : is_digit (pretty_N_char x) = true.
Proof. unfold pretty_N_char. by repeat case_match. Qed.

Lemma pretty_N_char_nonzero (x : N) :
  (0 < x < 10)%N → pretty_N_char x ≠ "0"%char.
Proof.
  intros Hx.
  assert (x = 1 ∨ x = 2 ∨ x = 3 ∨ x = 4 ∨ x = 5 ∨ x = 6 ∨ x = 7 ∨ x = 8
          ∨ x = 9)%N as Hcases by lia.
  by repeat destruct Hcases as [->|Hcases]; [..|subst x].
Qed.

(** The digits of a positive number, put in front of a string of digits:
    the result is a string of digits, and its first is not a zero. *)
Lemma pretty_N_go_digits (x : N) (s : string) :
  (0 < x)%N → all_digits s = true →
  ∃ c rest, pretty_N_go x s = String c rest
    ∧ c ≠ "0"%char ∧ all_digits (String c rest) = true.
Proof.
  revert s. induction (N.lt_wf_0 x) as [x _ IH]; intros s Hx Hs.
  rewrite pretty_N_go_step by done.
  assert (all_digits (String (pretty_N_char (x `mod` 10)) s) = true) as Hs'.
  { simpl. by rewrite pretty_N_char_digit. }
  destruct (decide (x < 10)%N) as [Hlt|Hge].
  - rewrite N.div_small by done. rewrite pretty_N_go_0.
    eexists _, _. split; [done|]. split; [|done].
    rewrite N.mod_small by done. by apply pretty_N_char_nonzero.
  - apply IH; [|apply N.div_str_pos|done]; [apply N.div_lt|]; lia.
Qed.

Lemma pretty_pos_digits (z : Z) :
  0 < z →
  ∃ c rest, pretty z = String c rest
    ∧ c ≠ "0"%char ∧ all_digits (String c rest) = true.
Proof.
  intros Hz. destruct z as [|p|p]; [lia| |lia].
  unfold pretty, pretty_Z, pretty, pretty_positive, pretty, pretty_N.
  rewrite decide_False by done.
  by apply pretty_N_go_digits.
Qed.

(** X5.  For an index from 0 up to, but not including, the largest [int],
    the placeholder is a dollar sign and then nothing but decimal digits, at
    least one, the first of them not a zero. *)
Theorem Bind_syntax (field : string) (i : Z) :
  0 ≤ i < int_max →
  ∃ c rest, DbDialect.Bind duckdbDialect field i = String "$" (String c rest)
    ∧ c ≠ "0"%char ∧ all_digits (String c rest) = true.
Proof.
  intros Hi. rewrite Bind_eq, int_add_1.
  - rewrite decide_False by lia.
    destruct (pretty_pos_digits (i + 1)) as (c & rest & -> & Hc & Hd); [lia|].
    by exists c, rest.
  - unfold is_int, int_min, int_max in *. lia.
Qed.

Lemma Bind_syntax_witness :
  ∃ c rest, DbDialect.Bind duckdbDialect "id" 41 = String "$" (String c rest)
    ∧ c ≠ "0"%char ∧ all_digits (String c rest) = true.
Proof. apply Bind_syntax. unfold int_max. lia. Defined.
End placeholder.

(** ** Chains of configuration calls *)

Section chains.
Import FluentInsert.
Context {W : Type}.
Implicit Types (σ : state W) (b : FluentInsert.t W) (i : loc) (c : call)
  (cs : list call).


Lemma update_same_field c1 c2 b :
  assigns c1 = assigns c2 → update c2 (update c1 b) = update c2 b.
Proof. destruct c1, c2; simpl; intros H; done. Qed.

(** X7.  Of two calls that assign the same field of an allocated builder,
    the later one overrides the earlier: the chain of both is the later call
    alone. *)
Theorem same_field_last_call_wins σ i c1 c2 :
  is_Some (builders σ !! i) →
  assigns c1 = assigns c2 →
  chain [c1; c2] i σ = chain [c2] i σ.
Proof.
  intros [b Hb] Heq.
  rewrite (chain_two_allocated _ _ _ _ _ Hb).
  rewrite (chain_allocated _ _ _ [c2] Hb). simpl.
  by rewrite (update_same_field _ _ _ Heq).
Qed.

Lemma configure_settings b cs :
  store (configure cs b) = store b
  ∧ ds (configure cs b) = ds b
  ∧ tx (configure cs b) = default (tx b) (Store.configured pick_Tx cs)
  ∧ batch (configure cs b)
    = default (batch b) (Store.configured Store.pick_Batch cs)
  ∧ batchSize (configure cs b)
    = default (batchSize b) (Store.configured Store.pick_BatchSize cs)
  ∧ records (configure cs b)
    = default (records b) (Store.configured Store.pick_Records cs)
  ∧ panicOnErr (configure cs b)
    = default (panicOnErr b) (Store.configured pick_PanicOnErr cs).
Proof.
  unfold configure.
  split; [apply foldl_update_store|].
  split; [apply foldl_update_ds|].
  repeat split; apply foldl_update_field; by intros [].
Qed.

(** X8.  A chain of configuration calls on an allocated builder, however
    long and in whatever order, returns the builder and leaves each setting at
    the argument of the last call of its method, or as it was when there is
    no such call; the store and the data set of the builder, every other
    builder and the world of the store are not touched. *)
Theorem chain_settings σ i b cs :
  builders σ !! i = Some b →
  ∃ b', chain cs i σ = (Ret i, mkState (<[i := b']> (builders σ)) (world σ))
    ∧ store b' = store b
    ∧ ds b' = ds b
    ∧ tx b' = default (tx b) (Store.configured pick_Tx cs)
    ∧ batch b' = default (batch b) (Store.configured Store.pick_Batch cs)
    ∧ batchSize b'
      = default (batchSize b) (Store.configured Store.pick_BatchSize cs)
    ∧ records b'
      = default (records b) (Store.configured Store.pick_Records cs)
    ∧ panicOnErr b'
      = default (panicOnErr b) (Store.configured pick_PanicOnErr cs).
Proof.
  intros Hb. exists (configure cs b). split.
  - by rewrite (chain_allocated _ _ _ cs Hb).
  - apply configure_settings.
Qed.

(** X9.  A chain of configuration calls and then [Execute], on an allocated
    builder of any store: the store's [InsertRecs] is called once, with the
    transaction and the input that the last call of each method set, and
    what it returns, or its panic, is the outcome. *)
Theorem chain_Execute σ i b cs (r : result (option error)) (w : W) :
  builders σ !! i = Some b →
  DataStore.InsertRecs (store b)
    (default (tx b) (Store.configured pick_Tx cs))
    (InsertInput.mk (ds b)
       (default (records b) (Store.configured Store.pick_Records cs))
       (default (batch b) (Store.configured Store.pick_Batch cs))
       (default (batchSize b) (Store.configured Store.pick_BatchSize cs))
       (default (panicOnErr b) (Store.configured pick_PanicOnErr cs)))
    (world σ) = (r, w) →
  (i' <- chain cs i ;; Execute i') σ
  = (r, mkState (<[i := configure cs b]> (builders σ)) w).
Proof.
  intros Hb Hrun.
  unfold bind at 1. rewrite (chain_allocated _ _ _ cs Hb). cbv beta iota.
  erewrite Execute_allocated; last by apply lookup_insert_eq.
  fold (configure cs b).
  destruct (configure_settings b cs)
    as (-> & -> & -> & -> & -> & -> & ->).
  unfold zoom, set_builders. cbn [world builders].
  by rewrite Hrun.
Qed.

(** X10.  [Execute] does not use the builder up: when the first call
    returns, a second [Execute] calls [InsertRecs] again with the same
    transaction and the same input, on the world that the first call left. *)
Theorem Execute_twice σ i b (e1 : option error) (w1 : W)
    (r2 : result (option error)) (w2 : W) :
  builders σ !! i = Some b →
  DataStore.InsertRecs (store b) (tx b) (input_of b) (world σ)
  = (Ret e1, w1) →
  DataStore.InsertRecs (store b) (tx b) (input_of b) w1 = (r2, w2) →
  (Execute i ;;; Execute i) σ = (r2, mkState (builders σ) w2).
Proof.
  intros Hb Hrun1 Hrun2. unfold bind at 1.
  rewrite (Execute_allocated _ _ _ Hb). unfold zoom at 1.
  unfold input_of in *. rewrite Hrun1. cbv beta iota.
  rewrite (Execute_allocated _ i b) by done.
  unfold zoom, set_world. cbn [world builders].
  by rewrite Hrun2.
Qed.
End chains.

Section chains_examples.
Import FluentInsert.


Lemma same_field_last_call_wins_witness :
  chain [call_BatchSize 10; call_BatchSize 20] 1%positive sample_state
  = chain [call_BatchSize 20] 1%positive sample_state.
Proof.
  apply same_field_last_call_wins.
  - exists sample_builder. reflexivity.
  - reflexivity.
Defined.

Lemma chain_settings_witness :
  ∃ b', chain [call_Batch true; call_BatchSize 5; call_Batch false]
          1%positive sample_state
        = (Ret 1%positive,
           mkState (<[1%positive := b']> (builders sample_state)) [])
    ∧ store b' = Store.recording
    ∧ ds b' = Some 7%positive
    ∧ tx b' = Some 3%positive
    ∧ batch b' = false
    ∧ batchSize b' = 5
    ∧ records b' = any_string "spot"
    ∧ panicOnErr b' = false.
Proof.
  apply (chain_settings sample_state 1%positive sample_builder
           [call_Batch true; call_BatchSize 5; call_Batch false]).
  reflexivity.
Defined.

Lemma chain_Execute_witness :
  (i' <- chain [call_Records (any_slice [any_int 1; any_int 2; any_int 3]);
                call_Batch true; call_BatchSize 2] 1%positive ;;
   Execute i') sample_state
  = (Ret None,
     mkState
       (<[1%positive :=
            configure
              [call_Records (any_slice [any_int 1; any_int 2; any_int 3]);
               call_Batch true; call_BatchSize 2] sample_builder]>
          (builders sample_state))
       [Store.batch_op [any_int 1; any_int 2]; Store.batch_op [any_int 3]]).
Proof.
  apply (chain_Execute sample_state 1%positive sample_builder).
  - reflexivity.
  - reflexivity.
Defined.

Lemma Execute_twice_witness :
  (Execute 1%positive ;;; Execute 1%positive) sample_state
  = (Ret None,
     mkState (builders sample_state)
       [Store.statement (any_string "spot");
        Store.statement (any_string "spot")]).
Proof.
  apply (Execute_twice sample_state 1%positive sample_builder None
           [Store.statement (any_string "spot")]).
  - reflexivity.
  - reflexivity.
  - reflexivity.
Defined.
End chains_examples.
